(** * The I2C scanner script (esp-flasher/i2cscanner.py) as an interaction tree

    The script talks to its environment through four primitives of the
    MicroPython platform ([machine.Pin], [machine.I2C], [I2C.scan],
    [time.sleep]) and through [print], and it loops forever.  It is embedded
    as an interaction tree over these primitives; a fuel-indexed runner gives
    the finite prefixes of its behaviour against a world that answers the
    bus scans. *)

From Stdlib Require Import ZArith List String Ascii Lia Bool Sorted.
From ITree Require Import ITree ITreeFacts.
Import ListNotations.
Import ITreeNotations.
Local Open Scope string_scope.
Local Open Scope Z_scope.
Local Open Scope itree_scope.

(* ===================================================================== *)
(** ** Python built-ins used by the script *)
(* ===================================================================== *)

Module Py.

(** One uppercase hexadecimal digit, for a value in 0..15. *)
Definition hex_digit (d : Z) : ascii :=
  match d with
  | 0 => "0" | 1 => "1" | 2 => "2" | 3 => "3"
  | 4 => "4" | 5 => "5" | 6 => "6" | 7 => "7"
  | 8 => "8" | 9 => "9" | 10 => "A" | 11 => "B"
  | 12 => "C" | 13 => "D" | 14 => "E" | _ => "F"
  end%char.

(** The digits of a non-negative integer in base 16, most significant
    first; the fuel bounds the number of digits. *)
Fixpoint hex_digits (fuel : nat) (n : Z) (acc : string) : string :=
  match fuel with
  | O => acc
  | S fuel' =>
      let acc' := String (hex_digit (n mod 16)) acc in
      if n / 16 =? 0 then acc' else hex_digits fuel' (n / 16) acc'
  end.

(** [format(n, "X")] for [n >= 0]. *)
Definition upper_hex (n : Z) : string :=
  hex_digits (S (Z.to_nat (Z.log2 n))) n "".

(** [width - len(s)] copies of ["0"] in front of [s]. *)
Definition zero_pad (width : nat) (s : string) : string :=
  String.concat "" (repeat "0" (width - String.length s)) ++ s.

(** ["{:02X}".format(n)]: uppercase hexadecimal, at least two characters
    wide, padded with zeros after the sign. *)
Definition format_02X (n : Z) : string :=
  if n <? 0 then "-" ++ zero_pad 1 (upper_hex (- n))
  else zero_pad 2 (upper_hex n).

(** The escape [\n] of a string literal. *)
Definition newline : string := String "010" EmptyString.

(** Truth value of a list in a condition: non-empty. *)
Definition truthy {A} (l : list A) : bool :=
  match l with
  | [] => false
  | _ :: _ => true
  end.

End Py.

(* ===================================================================== *)
(** ** The platform interface *)
(* ===================================================================== *)

(** A [machine.Pin] object: the pin identifier it was built from. *)
Record Pin := MkPin { pin_id : Z }.

(** A [machine.I2C] object: the configuration it was built from. *)
Record I2C := MkI2C { i2c_id : Z; i2c_scl : Pin; i2c_sda : Pin; i2c_freq : Z }.

(** The calls the script makes to its environment. *)
Variant ioE : Type -> Type :=
| NewPin (id : Z) : ioE Pin
| NewI2C (id : Z) (scl sda : Pin) (freq : Z) : ioE I2C
| Scan (bus : I2C) : ioE (list Z)
| Print (s : string) : ioE unit
| Sleep (seconds : Z) : ioE unit.

Definition print (s : string) : itree ioE unit := ITree.trigger (Print s).
Definition sleep (seconds : Z) : itree ioE unit := ITree.trigger (Sleep seconds).
Definition scan (bus : I2C) : itree ioE (list Z) := ITree.trigger (Scan bus).

(** [for x in l: body x] *)
Fixpoint for_each {A} (l : list A) (body : A -> itree ioE unit) : itree ioE unit :=
  match l with
  | [] => Ret tt
  | x :: l' => body x ;; for_each l' body
  end.

(* ===================================================================== *)
(** ** The script *)
(* ===================================================================== *)

(** [i2c = I2C(0, scl=Pin(22), sda=Pin(21), freq=100000)] *)
Definition i2c_init : itree ioE I2C :=
  scl <- ITree.trigger (NewPin 22) ;;
  sda <- ITree.trigger (NewPin 21) ;;
  ITree.trigger (NewI2C 0 scl sda 100000).

(** ["I2C device found at address 0x{:02X}!".format(device)] *)
Definition found_line (device : Z) : string :=
  "I2C device found at address 0x" ++ Py.format_02X device ++ "!".

(** The [if devices: ... else: ...] statement of the loop body, which
    reports the outcome of one scan. *)
Definition report (devices : list Z) : itree ioE unit :=
  if Py.truthy devices then
    for_each devices (fun device => print (found_line device))
  else
    print "No I2C devices found".

(** The body of the [while True] loop of [scan_i2c]. *)
Definition scan_i2c_body (i2c : I2C) : itree ioE unit :=
  print "Scanning..." ;;
  devices <- scan i2c ;;
  report devices ;;
  print ("done" ++ Py.newline) ;;
  sleep 5.

(** [scan_i2c()]; the module global [i2c] is passed explicitly. *)
Definition scan_i2c (i2c : I2C) : itree ioE void :=
  print (Py.newline ++ "Soldered I2C Scanner!") ;;
  ITree.forever (scan_i2c_body i2c).

(** The module, executed with [__name__] bound to [name]. *)
Definition module_main (name : string) : itree ioE unit :=
  i2c <- i2c_init ;;
  if String.eqb name "__main__" then
    v <- scan_i2c i2c ;; match v : void with end
  else Ret tt.

(* ===================================================================== *)
(** ** Running the script against a world *)
(* ===================================================================== *)

(** An exception raised by the platform. *)
Record exn := Exn { exn_name : string }.

(** What one call of [i2c.scan()] does: it returns a list of addresses, or
    it raises. *)
Variant answer :=
| Returns (devices : list Z)
| Raises (e : exn).

(** The world the process runs in.  [scans n] is what the [n]-th call of
    [i2c.scan()] does; the command line and the process environment are
    there to be read, if the program asks. *)
Record World := MkWorld {
  scans : nat -> answer;
  argv : list string;
  environ : list (string * string)
}.

(** What an observer of the process sees. *)
Variant event :=
| EvNewPin (id : Z)
| EvNewI2C (id : Z) (scl sda : Pin) (freq : Z)
| EvScan (bus : I2C) (a : answer)
| EvPrint (s : string)
| EvSleep (seconds : Z).

Variant Outcome (R : Type) :=
| Returned (r : R)
| Uncaught (e : exn)
| Running.
Arguments Returned {R} r.
Arguments Uncaught {R} e.
Arguments Running {R}.

(** The result of running for a bounded number of steps: the events so
    far, how the run stands, the number of scans made and the fuel left. *)
Record Run (R : Type) := MkRun {
  trace : list event;
  outcome : Outcome R;
  scans_done : nat;
  fuel_left : nat
}.
Arguments MkRun {R}.
Arguments trace {R}.
Arguments outcome {R}.
Arguments scans_done {R}.
Arguments fuel_left {R}.

Definition emit {R} (ev : event) (r : Run R) : Run R :=
  MkRun (ev :: trace r) (outcome r) (scans_done r) (fuel_left r).

(** Every [Vis] and [Tau] node costs one unit of fuel; an exception of the
    platform is not caught anywhere in the script, so it ends the run. *)
Fixpoint run {R} (w : World) (fuel : nat) (n : nat) (t : itree ioE R) : Run R :=
  match observe t with
  | RetF r => MkRun [] (Returned r) n fuel
  | TauF t' =>
      match fuel with
      | O => MkRun [] Running n 0
      | S fuel' => run w fuel' n t'
      end
  | VisF e k =>
      match fuel with
      | O => MkRun [] Running n 0
      | S fuel' =>
          match e in ioE X return (X -> itree ioE R) -> Run R with
          | NewPin id => fun k =>
              emit (EvNewPin id) (run w fuel' n (k (MkPin id)))
          | NewI2C id scl sda freq => fun k =>
              emit (EvNewI2C id scl sda freq)
                   (run w fuel' n (k (MkI2C id scl sda freq)))
          | Scan bus => fun k =>
              match scans w n with
              | Returns devices =>
                  emit (EvScan bus (Returns devices))
                       (run w fuel' (S n) (k devices))
              | Raises e =>
                  MkRun [EvScan bus (Raises e)] (Uncaught e) (S n) fuel'
              end
          | Print s => fun k => emit (EvPrint s) (run w fuel' n (k tt))
          | Sleep seconds => fun k => emit (EvSleep seconds) (run w fuel' n (k tt))
          end k
      end
  end.

(** The text written to standard output: [print] writes its argument and a
    newline. *)
Fixpoint stdout (tr : list event) : string :=
  match tr with
  | [] => ""
  | EvPrint s :: tr' => s ++ Py.newline ++ stdout tr'
  | _ :: tr' => stdout tr'
  end.

(** Sequencing of runs: what [run] does on [ITree.bind]. *)
Definition and_then {R S} (r : Run R) (k : R -> nat -> nat -> Run S) : Run S :=
  match outcome r with
  | Returned x =>
      let r' := k x (scans_done r) (fuel_left r) in
      MkRun (trace r ++ trace r') (outcome r') (scans_done r') (fuel_left r')
  | Uncaught e => MkRun (trace r) (Uncaught e) (scans_done r) (fuel_left r)
  | Running => MkRun (trace r) Running (scans_done r) (fuel_left r)
  end.


Definition prepend {R} (tr : list event) (r : Run R) : Run R :=
  MkRun (tr ++ trace r) (outcome r) (scans_done r) (fuel_left r).

(** [completes w t n c tr r n']: started after [n] scans, [t] returns [r]
    after exactly [c] steps, having produced [tr] and made [n' - n] scans. *)
Definition completes {R} (w : World) (t : itree ioE R) (n c : nat)
    (tr : list event) (r : R) (n' : nat) : Prop :=
  forall fuel, run w (c + fuel) n t = MkRun tr (Returned r) n' fuel.

(** Every event of every finite run of [t] satisfies [P]. *)
Definition trace_all {R} (w : World) (P : event -> Prop) (t : itree ioE R) : Prop :=
  forall fuel n, Forall P (trace (run w fuel n t)).

(** *** What one iteration of the loop is expected to do *)

(** The events of the report of one scan. *)
Definition report_events (devices : list Z) : list event :=
  match devices with
  | [] => [EvPrint "No I2C devices found"]
  | _ :: _ =>
      List.map (fun d => EvPrint (found_line d)) devices
  end.

Definition report_cost (devices : list Z) : nat :=
  match devices with
  | [] => 1
  | _ :: _ => List.length devices
  end.

(** One iteration: the line [Scanning...], one scan, one report, the line
    [done] followed by an empty line, and a sleep of five seconds. *)
Definition iteration_events (i2c : I2C) (devices : list Z) : list event :=
  [EvPrint "Scanning..."; EvScan i2c (Returns devices)]
  ++ report_events devices
  ++ [EvPrint ("done" ++ Py.newline); EvSleep 5].

Definition iteration_cost (devices : list Z) : nat :=
  4 + report_cost devices.

(** Iterations [n], [n+1], ..., [n+m-1], where the [k]-th scan returns
    [devs k].  Going round the loop costs one more step per iteration. *)
Definition loop_events (i2c : I2C) (devs : nat -> list Z) (n m : nat) : list event :=
  flat_map (fun k => iteration_events i2c (devs k)) (seq n m).

Definition loop_cost (devs : nat -> list Z) (n m : nat) : nat :=
  list_sum (List.map (fun k => S (iteration_cost (devs k))) (seq n m)).

Definition banner : string := Py.newline ++ "Soldered I2C Scanner!".

(** The first [m] iterations of [scan_i2c]. *)
Definition scan_i2c_events (i2c : I2C) (devs : nat -> list Z) (m : nat) : list event :=
  EvPrint banner :: loop_events i2c devs 0 m.

Definition scan_i2c_cost (devs : nat -> list Z) (m : nat) : nat :=
  S (loop_cost devs 0 m).

(** *** The text on standard output *)

(** A 7-bit bus address. *)
Definition is_address (d : Z) : Prop := 0 <= d <= 127.

(** Two uppercase hexadecimal digits: the high and the low half of a byte. *)
Definition two_hex_digits (d : Z) : string :=
  String (Py.hex_digit (d / 16)) (String (Py.hex_digit (d mod 16)) EmptyString).

(** The strings of a list one after the other. *)
Fixpoint join (l : list string) : string :=
  match l with
  | [] => ""
  | s :: l' => s ++ join l'
  end.

(** The lines of a list, each ended by a newline. *)
Definition lines (l : list string) : string :=
  join (List.map (fun s => s ++ Py.newline) l).

Definition report_text (devices : list Z) : string :=
  match devices with
  | [] => lines ["No I2C devices found"]
  | _ :: _ => lines (List.map found_line devices)
  end.

Definition iteration_text (devices : list Z) : string :=
  lines ["Scanning..."] ++ report_text devices ++ lines ["done"; ""].

Definition scan_i2c_text (devs : nat -> list Z) (m : nat) : string :=
  lines [""; "Soldered I2C Scanner!"]
  ++ join (List.map (fun k => iteration_text (devs k)) (seq 0 m)).

(** *** Observations on traces *)

Definition sleeps_five (ev : event) : Prop :=
  match ev with
  | EvSleep seconds => seconds = 5
  | _ => True
  end.

Definition is_scan (ev : event) : bool :=
  match ev with
  | EvScan _ _ => true
  | _ => false
  end.

Definition is_sleep (ev : event) : bool :=
  match ev with
  | EvSleep _ => true
  | _ => false
  end.

Definition count (p : event -> bool) (tr : list event) : nat :=
  List.length (List.filter p tr).

(** The text the process writes between the end of iteration [i - 1] and
    the end of iteration [i], read off two runs of the whole script. *)
Definition devices_of (a : answer) : list Z :=
  match a with
  | Returns devices => devices
  | Raises _ => []
  end.

Definition world_devs (w : World) (k : nat) : list Z := devices_of (scans w k).

Definition string_drop (n : nat) (s : string) : string :=
  String.substring n (String.length s - n) s.

Definition iteration_output (w : World) (i2c : I2C) (i : nat) : string :=
  let before := stdout (trace (run w (scan_i2c_cost (world_devs w) i) 0 (scan_i2c i2c))) in
  let after := stdout (trace (run w (scan_i2c_cost (world_devs w) (S i)) 0 (scan_i2c i2c))) in
  string_drop (String.length before) after.

(** *** The module as the main program *)

(** The bus object the module builds. *)
Definition the_i2c : I2C := MkI2C 0 (MkPin 22) (MkPin 21) 100000.

Definition init_events : list event :=
  [EvNewPin 22; EvNewPin 21; EvNewI2C 0 (MkPin 22) (MkPin 21) 100000].

(** A run of a computation that has no result, seen as a run of the module. *)
Definition as_module_run (r : Run void) : Run unit :=
  MkRun (trace r)
        (match outcome r with
         | Returned v => match v with end
         | Uncaught e => Uncaught e
         | Running => Running
         end)
        (scans_done r) (fuel_left r).

(** The first [m] scans of the world return, and return [devs]. *)
Definition scans_return (w : World) (devs : nat -> list Z) (m : nat) : Prop :=
  forall k, (k < m)%nat -> scans w k = Returns (devs k).

(* ===================================================================== *)
(** ** The bus sweep *)
(* ===================================================================== *)

Module Sweep.

(** Modelled from the spec: the outcome of one presence probe (start
    condition, address byte, acknowledge bit, stop condition).  The driver
    behind [i2c.scan()] is [machine.I2C] of the platform, which is not among
    the sources. *)
Variant probe_result :=
| Ack
| Nack
| Fault.

(** Modelled from the spec: the bus during one sweep, as the outcome of the
    probe of each address; [machine.I2C] is missing from the sources. *)
Definition Bus := Z -> probe_result.

(** Modelled from the spec: the one error of a sweep, a transport-level
    fault; [machine.I2C] is missing from the sources. *)
Variant error := BusError.

(** Modelled from the spec: [count] addresses are probed in ascending order
    from [addr]; an address is included iff its probe is acknowledged, a
    non-acknowledge is skipped without a retry, and a transport fault fails
    the sweep.  [machine.I2C.scan] is missing from the sources. *)
Fixpoint sweep_from (bus : Bus) (addr : Z) (count : nat) : error + list Z :=
  match count with
  | O => inr []
  | S count' =>
      match bus addr with
      | Fault => inl BusError
      | Nack => sweep_from bus (addr + 1) count'
      | Ack =>
          match sweep_from bus (addr + 1) count' with
          | inl e => inl e
          | inr found => inr (addr :: found)
          end
      end
  end.

(** Modelled from the spec: the number of 7-bit addresses, 0 to 127. *)
Definition address_space : nat := 128.

(** Modelled from the spec: [sweep(handle) -> ScanResult] over the address
    space [0,127]; [machine.I2C.scan] is missing from the sources. *)
Definition sweep (bus : Bus) : error + list Z := sweep_from bus 0 address_space.

(** Modelled from the spec: a simulated bus on which exactly the addresses
    of [present] acknowledge and all others do not. *)
Definition simulated (present : list Z) : Bus :=
  fun a => if existsb (Z.eqb a) present then Ack else Nack.

(** What the call [i2c.scan()] of the script does when the driver sweeps
    [bus]: an error of the driver is an exception of the call. *)
Definition answer_of (r : error + list Z) : answer :=
  match r with
  | inr found => Returns found
  | inl BusError => Raises (Exn "BusError")
  end.

Definition world_of (buses : nat -> Bus) : World :=
  MkWorld (fun n => answer_of (sweep (buses n))) [] [].

End Sweep.

(* ===================================================================== *)
(** ** The protocol of the script *)
(* ===================================================================== *)

Definition Pin_eqb (p q : Pin) : bool := pin_id p =? pin_id q.

Definition I2C_eqb (a b : I2C) : bool :=
  (i2c_id a =? i2c_id b) && Pin_eqb (i2c_scl a) (i2c_scl b)
  && Pin_eqb (i2c_sda a) (i2c_sda b) && (i2c_freq a =? i2c_freq b).

(** Where the process stands, as an observer can tell from the events. *)
Variant phase :=
| Boot                            (* nothing has happened *)
| HasScl                          (* [Pin(22)] built *)
| HasSda                          (* [Pin(21)] built *)
| Start                           (* the bus object built *)
| Idle                            (* at the head of the loop *)
| Scanning                        (* [Scanning...] written *)
| Empty                           (* the scan returned the empty list *)
| Reporting (todo : list Z)       (* these addresses are still to be written *)
| Reported                        (* the report is complete *)
| Done                            (* [done] written *)
| Crashed.                        (* the scan raised *)

Definition after_scan (devices : list Z) : phase :=
  match devices with
  | [] => Empty
  | _ :: _ => Reporting devices
  end.

Definition after_line (todo : list Z) : phase :=
  match todo with
  | [] => Reported
  | _ :: _ => Reporting todo
  end.

(** The events the script may produce in each phase, and the phase each
    leads to; [None] is an event out of turn. *)
Definition protocol (i2c : I2C) (ph : phase) (ev : event) : option phase :=
  match ph, ev with
  | Boot, EvNewPin id => if id =? 22 then Some HasScl else None
  | HasScl, EvNewPin id => if id =? 21 then Some HasSda else None
  | HasSda, EvNewI2C id scl sda freq =>
      if I2C_eqb (MkI2C id scl sda freq) i2c then Some Start else None
  | Start, EvPrint s => if String.eqb s banner then Some Idle else None
  | Idle, EvPrint s => if String.eqb s "Scanning..." then Some Scanning else None
  | Scanning, EvScan bus (Returns devices) =>
      if I2C_eqb bus i2c then Some (after_scan devices) else None
  | Scanning, EvScan bus (Raises _) =>
      if I2C_eqb bus i2c then Some Crashed else None
  | Empty, EvPrint s =>
      if String.eqb s "No I2C devices found" then Some Reported else None
  | Reporting (d :: todo), EvPrint s =>
      if String.eqb s (found_line d) then Some (after_line todo) else None
  | Reported, EvPrint s =>
      if String.eqb s ("done" ++ Py.newline) then Some Done else None
  | Done, EvSleep seconds => if seconds =? 5 then Some Idle else None
  | _, _ => None
  end.

(** The phase reached by a sequence of events, if every event is in turn. *)
Fixpoint accepts {St} (step : St -> event -> option St) (s : St)
    (tr : list event) : option St :=
  match tr with
  | [] => Some s
  | ev :: tr' =>
      match step s ev with
      | Some s' => accepts step s' tr'
      | None => None
      end
  end.

(** Started in [s], every finite run of [t] is accepted, and a run that
    returns [r] ends in a state [s'] with [post r s']. *)
Definition follows {St R} (w : World) (step : St -> event -> option St)
    (s : St) (t : itree ioE R) (post : R -> St -> Prop) : Prop :=
  forall fuel n,
    exists s', accepts step s (trace (run w fuel n t)) = Some s'
               /\ forall r, outcome (run w fuel n t) = Returned r -> post r s'.

(** One when a scan has been made and the sleep that follows it has not. *)
Definition owes_sleep (ph : phase) : nat :=
  match ph with
  | Empty | Reporting _ | Reported | Done | Crashed => 1
  | _ => 0
  end.

(* ===================================================================== *)
(** ** Reading an address back from a line *)
(* ===================================================================== *)

(** The value of one hexadecimal digit, as [int(c, 16)] reads it: the
    digits from code 48, the capitals from code 65, the small letters from
    code 97. *)
Definition hex_value (c : ascii) : option Z :=
  let code := Z.of_nat (nat_of_ascii c) in
  if (48 <=? code) && (code <=? 57) then Some (code - 48)
  else if (65 <=? code) && (code <=? 70) then Some (code - 55)
  else if (97 <=? code) && (code <=? 102) then Some (code - 87)
  else None.

(** The number written by the digits of [s], after the digits of value [v]. *)
Fixpoint parse_hex (v : Z) (s : string) : option Z :=
  match s with
  | EmptyString => Some v
  | String c s' =>
      match hex_value c with
      | Some d => parse_hex (16 * v + d) s'
      | None => None
      end
  end.

(** [int(s, 16)] for a string of an optional minus sign and digits. *)
Definition parse_int16 (s : string) : option Z :=
  match s with
  | EmptyString => None
  | String c s' =>
      if Ascii.eqb c "-" then
        match s' with
        | EmptyString => None
        | String _ _ => option_map Z.opp (parse_hex 0 s')
        end
      else parse_hex 0 s
  end.

(* ===================================================================== *)
(** ** General facts about [run] *)
(* ===================================================================== *)

Section RunFacts.

Variable w : World.

Lemma run_observe {R} (t1 t2 : itree ioE R) fuel n :
  observe t1 = observe t2 -> run w fuel n t1 = run w fuel n t2.
Proof.
  intros H. destruct fuel; simpl; rewrite H; reflexivity.
Qed.

Lemma and_then_emit {R S} ev (r : Run R) (k : R -> nat -> nat -> Run S) :
  and_then (emit ev r) k = emit ev (and_then r k).
Proof.
  unfold and_then, emit; simpl. destruct (outcome r); reflexivity.
Qed.

Lemma run_ret {R} (t : itree ioE R) r fuel n :
  observe t = RetF r -> run w fuel n t = MkRun [] (Returned r) n fuel.
Proof.
  intros H. destruct fuel; simpl; rewrite H; reflexivity.
Qed.

Lemma and_then_ret {R S} (x : R) n fuel (k : R -> nat -> nat -> Run S) :
  and_then (MkRun [] (Returned x) n fuel) k = k x n fuel.
Proof.
  unfold and_then; simpl. destruct (k x n fuel); reflexivity.
Qed.

Lemma run_bind {R S} (k : R -> itree ioE S) fuel :
  forall n (t : itree ioE R),
    run w fuel n (ITree.bind t k)
    = and_then (run w fuel n t) (fun x n' fuel' => run w fuel' n' (k x)).
Proof.
  induction fuel as [|fuel IH]; intros n t;
    rewrite (run_observe _ _ _ _ (observe_bind t k));
    destruct (observe t) as [r | t' | X e h] eqn:Ht;
    try (rewrite (run_ret t r _ _ Ht), and_then_ret; reflexivity);
    simpl; rewrite Ht; try reflexivity.
  - apply IH.
  - destruct e; rewrite ?and_then_emit, ?IH; try reflexivity.
    destruct (scans w n); rewrite ?and_then_emit, ?IH; reflexivity.
Qed.

Lemma fuel_left_le {R} fuel :
  forall n (t : itree ioE R), (fuel_left (run w fuel n t) <= fuel)%nat.
Proof.
  induction fuel as [|fuel IH]; intros n t; simpl;
    destruct (observe t) as [r | t' | X e h]; simpl; auto.
  - destruct e; simpl; auto.
    destruct (scans w n); simpl; auto.
Qed.

(** *** Runs that come to an end *)

Lemma completes_ret {R} (r : R) n : completes w (Ret r) n 0 [] r n.
Proof. intros fuel. apply run_ret. reflexivity. Qed.

Lemma completes_print s n : completes w (print s) n 1 [EvPrint s] tt n.
Proof. intros fuel. simpl. unfold emit. rewrite run_ret with (r := tt); reflexivity. Qed.

Lemma completes_sleep d n : completes w (sleep d) n 1 [EvSleep d] tt n.
Proof. intros fuel. simpl. unfold emit. rewrite run_ret with (r := tt); reflexivity. Qed.

Lemma completes_scan bus n devices :
  scans w n = Returns devices ->
  completes w (scan bus) n 1 [EvScan bus (Returns devices)] devices (S n).
Proof.
  intros H fuel. simpl. rewrite H. unfold emit.
  rewrite run_ret with (r := devices); reflexivity.
Qed.

Lemma completes_bind {R S} (t : itree ioE R) (k : R -> itree ioE S)
    n c tr r n' c' tr' r' n'' :
  completes w t n c tr r n' ->
  completes w (k r) n' c' tr' r' n'' ->
  completes w (ITree.bind t k) n (c + c') (tr ++ tr') r' n''.
Proof.
  intros Ht Hk fuel. rewrite run_bind, <- Nat.add_assoc, Ht.
  unfold and_then; simpl. rewrite Hk. reflexivity.
Qed.

Lemma completes_for_each_print (f : Z -> string) l n :
  completes w (for_each l (fun x => print (f x))) n (List.length l)
            (List.map (fun x => EvPrint (f x)) l) tt n.
Proof.
  induction l as [|x l IH]; simpl.
  - apply completes_ret.
  - apply (completes_bind _ _ n 1 [EvPrint (f x)] tt n); auto using completes_print.
Qed.

Lemma completes_report devices n :
  completes w (report devices) n (report_cost devices) (report_events devices) tt n.
Proof.
  destruct devices as [|d l].
  - apply completes_print.
  - apply completes_for_each_print.
Qed.

Lemma completes_body i2c devices n :
  scans w n = Returns devices ->
  completes w (scan_i2c_body i2c) n (iteration_cost devices)
            (iteration_events i2c devices) tt (S n).
Proof.
  intros H. unfold scan_i2c_body, iteration_cost, iteration_events.
  replace (4 + report_cost devices)%nat
    with (1 + (1 + (report_cost devices + (1 + 1))))%nat by lia.
  apply (completes_bind _ _ n 1 [EvPrint "Scanning..."] tt n);
    [apply completes_print|].
  apply (completes_bind _ _ n 1 [EvScan i2c (Returns devices)] devices (S n));
    [apply completes_scan; exact H|].
  apply (completes_bind _ _ (S n) _ (report_events devices) tt (S n));
    [apply completes_report|].
  apply (completes_bind _ _ (S n) 1 [EvPrint ("done" ++ Py.newline)] tt (S n));
    [apply completes_print|].
  apply completes_sleep.
Qed.

(** *** The loop *)

Lemma run_forever_unfold {R U} (t : itree ioE R) fuel n :
  run w fuel n (@ITree.forever ioE R U t)
  = and_then (run w fuel n t)
             (fun _ n' fuel' => run w fuel' n' (Tau (ITree.forever t))).
Proof.
  rewrite <- run_bind. apply run_observe.
  apply (observing_observe (unfold_forever_ t)).
Qed.

Lemma run_forever_step {R U} (t : itree ioE R) n c tr r n' fuel :
  completes w t n c tr r n' ->
  run w (c + S fuel) n (@ITree.forever ioE R U t)
  = prepend tr (run w fuel n' (ITree.forever t)).
Proof.
  intros H. rewrite run_forever_unfold, H. reflexivity.
Qed.

Lemma loop_cost_S devs n m :
  loop_cost devs n (S m) = (S (iteration_cost (devs n)) + loop_cost devs (S n) m)%nat.
Proof. reflexivity. Qed.

Lemma loop_events_S i2c devs n m :
  loop_events i2c devs n (S m)
  = (iteration_events i2c (devs n) ++ loop_events i2c devs (S n) m)%list.
Proof. reflexivity. Qed.

Lemma prepend_nil {R} (r : Run R) : prepend [] r = r.
Proof. destruct r; reflexivity. Qed.

Lemma prepend_app {R} tr1 tr2 (r : Run R) :
  prepend tr1 (prepend tr2 r) = prepend (tr1 ++ tr2)%list r.
Proof. unfold prepend; simpl. rewrite app_assoc. reflexivity. Qed.

Lemma run_loop i2c devs {U} m :
  forall n fuel,
    (forall k, (n <= k < n + m)%nat -> scans w k = Returns (devs k)) ->
    run w (loop_cost devs n m + fuel) n (@ITree.forever ioE unit U (scan_i2c_body i2c))
    = prepend (loop_events i2c devs n m)
              (run w fuel (n + m) (ITree.forever (scan_i2c_body i2c))).
Proof.
  induction m as [|m IH]; intros n fuel H.
  - rewrite Nat.add_0_r. symmetry. apply prepend_nil.
  - rewrite loop_cost_S, loop_events_S.
    replace (S (iteration_cost (devs n)) + loop_cost devs (S n) m + fuel)%nat
      with (iteration_cost (devs n) + S (loop_cost devs (S n) m + fuel))%nat by lia.
    rewrite (run_forever_step _ n _ (iteration_events i2c (devs n)) tt (S n))
      by (apply completes_body, H; lia).
    rewrite IH by (intros k Hk; apply H; lia).
    rewrite prepend_app.
    replace (S n + m)%nat with (n + S m)%nat by lia. reflexivity.
Qed.

Lemma run_scan_i2c i2c devs m fuel :
  scans_return w devs m ->
  run w (scan_i2c_cost devs m + fuel) 0 (scan_i2c i2c)
  = prepend (scan_i2c_events i2c devs m)
            (run w fuel m (ITree.forever (scan_i2c_body i2c))).
Proof.
  intros H. unfold scan_i2c, scan_i2c_cost, scan_i2c_events.
  rewrite run_bind.
  change (S (loop_cost devs 0 m) + fuel)%nat
    with (1 + (loop_cost devs 0 m + fuel))%nat.
  rewrite (completes_print banner 0). unfold and_then; simpl.
  rewrite (run_loop i2c devs m 0) by (intros k Hk; apply H; lia).
  reflexivity.
Qed.

(** *** Loops do not return *)

Lemma forever_not_returned {R U} (t : itree ioE R) fuel :
  forall n (r : U), outcome (run w fuel n (@ITree.forever ioE R U t)) <> Returned r.
Proof.
  induction fuel as [fuel IH] using lt_wf_ind. intros n r.
  rewrite run_forever_unfold. unfold and_then.
  pose proof (fuel_left_le fuel n t) as Hle.
  destruct (outcome (run w fuel n t)); simpl; try discriminate.
  destruct (fuel_left (run w fuel n t)) as [|fuel']; simpl; try discriminate.
  apply IH. lia.
Qed.

Lemma scans_return_not_uncaught {R} devs fuel :
  (forall k, scans w k = Returns (devs k)) ->
  forall n (t : itree ioE R) e, outcome (run w fuel n t) <> Uncaught e.
Proof.
  intros H. induction fuel as [|fuel IH]; intros n t e; simpl;
    destruct (observe t) as [r | t' | X ev h]; simpl; try discriminate; auto.
  destruct ev; simpl; auto. rewrite H. simpl. auto.
Qed.

(** *** Properties of every event of a run *)

Lemma trace_all_ret {R} P (r : R) : trace_all w P (Ret r).
Proof. intros fuel n. rewrite run_ret with (r := r) by reflexivity. constructor. Qed.

Lemma trace_all_print P s : P (EvPrint s) -> trace_all w P (print s).
Proof.
  intros H [|fuel] n; simpl; [constructor|].
  rewrite run_ret with (r := tt) by reflexivity. simpl. auto.
Qed.

Lemma trace_all_sleep P d : P (EvSleep d) -> trace_all w P (sleep d).
Proof.
  intros H [|fuel] n; simpl; [constructor|].
  rewrite run_ret with (r := tt) by reflexivity. simpl. auto.
Qed.

Lemma trace_all_scan P bus : (forall a, P (EvScan bus a)) -> trace_all w P (scan bus).
Proof.
  intros H [|fuel] n; simpl; [constructor|].
  destruct (scans w n) as [devices | e] eqn:Hs; simpl.
  - rewrite run_ret with (r := devices) by reflexivity. simpl.
    constructor; [rewrite <- Hs; apply H | constructor].
  - constructor; [rewrite <- Hs; apply H | constructor].
Qed.

Lemma trace_all_bind {R S} P (t : itree ioE R) (k : R -> itree ioE S) :
  trace_all w P t -> (forall r, trace_all w P (k r)) ->
  trace_all w P (ITree.bind t k).
Proof.
  intros Ht Hk fuel n. rewrite run_bind. unfold and_then.
  specialize (Ht fuel n).
  destruct (outcome (run w fuel n t)); simpl; auto.
  apply Forall_app. split; [exact Ht | apply Hk].
Qed.

Lemma trace_all_for_each {A} P (l : list A) body :
  (forall x, trace_all w P (body x)) -> trace_all w P (for_each l body).
Proof.
  intros H. induction l as [|x l IH]; simpl.
  - apply trace_all_ret.
  - apply trace_all_bind; auto.
Qed.

Lemma trace_all_forever {R U} P (t : itree ioE R) :
  trace_all w P t -> trace_all w P (@ITree.forever ioE R U t).
Proof.
  intros Ht fuel. induction fuel as [fuel IH] using lt_wf_ind. intros n.
  rewrite run_forever_unfold. unfold and_then.
  pose proof (fuel_left_le fuel n t) as Hle. specialize (Ht fuel n).
  destruct (outcome (run w fuel n t)); simpl; auto.
  apply Forall_app. split; [exact Ht|].
  destruct (fuel_left (run w fuel n t)) as [|fuel']; simpl; [constructor|].
  apply IH. lia.
Qed.

End RunFacts.

(* ===================================================================== *)
(** ** Strings and standard output *)
(* ===================================================================== *)

Lemma string_app_assoc (a b c : string) : (a ++ b) ++ c = a ++ (b ++ c).
Proof. induction a as [|ch a IH]; simpl; [reflexivity | now rewrite IH]. Qed.

Lemma string_app_nil_r (a : string) : a ++ "" = a.
Proof. induction a as [|ch a IH]; simpl; [reflexivity | now rewrite IH]. Qed.

Lemma string_length_app (a b : string) :
  String.length (a ++ b) = (String.length a + String.length b)%nat.
Proof. induction a as [|ch a IH]; simpl; [reflexivity | now rewrite IH]. Qed.

Lemma substring_all (s : string) : String.substring 0 (String.length s) s = s.
Proof. induction s as [|ch s IH]; simpl; [reflexivity | now rewrite IH]. Qed.

Lemma string_drop_app (a b : string) : string_drop (String.length a) (a ++ b) = b.
Proof.
  unfold string_drop. rewrite string_length_app.
  replace (String.length a + String.length b - String.length a)%nat
    with (String.length b) by lia.
  induction a as [|ch a IH]; simpl; [apply substring_all | exact IH].
Qed.

Lemma join_app (l1 l2 : list string) : join (l1 ++ l2) = join l1 ++ join l2.
Proof.
  induction l1 as [|x l1 IH]; simpl; [reflexivity|].
  now rewrite IH, string_app_assoc.
Qed.

Lemma lines_app (l1 l2 : list string) : lines (l1 ++ l2) = lines l1 ++ lines l2.
Proof. unfold lines. now rewrite List.map_app, join_app. Qed.

Lemma stdout_app (tr1 tr2 : list event) :
  stdout (tr1 ++ tr2) = stdout tr1 ++ stdout tr2.
Proof.
  induction tr1 as [|ev tr1 IH]; simpl; [reflexivity|].
  destruct ev; auto. now rewrite IH, !string_app_assoc.
Qed.

Lemma stdout_prints (l : list string) : stdout (List.map EvPrint l) = lines l.
Proof.
  unfold lines. induction l as [|x l IH]; simpl; [reflexivity|].
  now rewrite IH, string_app_assoc.
Qed.

Lemma stdout_report_events devices : stdout (report_events devices) = report_text devices.
Proof.
  destruct devices as [|d l]; [reflexivity|].
  unfold report_events, report_text.
  rewrite <- stdout_prints, List.map_map. reflexivity.
Qed.

Lemma stdout_iteration_events i2c devices :
  stdout (iteration_events i2c devices) = iteration_text devices.
Proof.
  unfold iteration_events, iteration_text.
  rewrite !stdout_app, stdout_report_events. reflexivity.
Qed.

Lemma stdout_loop_events i2c devs m :
  forall n, stdout (loop_events i2c devs n m)
            = join (List.map (fun k => iteration_text (devs k)) (seq n m)).
Proof.
  induction m as [|m IH]; intros n; [reflexivity|].
  rewrite loop_events_S, stdout_app, stdout_iteration_events, IH. reflexivity.
Qed.

Lemma stdout_scan_i2c_events i2c devs m :
  stdout (scan_i2c_events i2c devs m) = scan_i2c_text devs m.
Proof.
  unfold scan_i2c_events, scan_i2c_text. simpl stdout.
  rewrite stdout_loop_events. reflexivity.
Qed.

(** ["{:02X}"] of a byte is its two hexadecimal digits. *)
Lemma format_02X_byte d : 0 <= d < 256 -> Py.format_02X d = two_hex_digits d.
Proof.
  intros H.
  assert (Hall : forallb (fun x => String.eqb (Py.format_02X x) (two_hex_digits x))
                         (List.map Z.of_nat (seq 0 256)) = true)
    by (vm_compute; reflexivity).
  rewrite forallb_forall in Hall.
  apply String.eqb_eq, Hall, in_map_iff.
  exists (Z.to_nat d). split; [lia|].
  apply in_seq. lia.
Qed.

Lemma run_zero_trace {R} w n (t : itree ioE R) : trace (run w 0 n t) = [].
Proof. simpl. destruct (observe t); reflexivity. Qed.

Lemma run_ext {R} w1 w2 fuel :
  (forall k, scans w1 k = scans w2 k) ->
  forall n (t : itree ioE R), run w1 fuel n t = run w2 fuel n t.
Proof.
  intros H. induction fuel as [|fuel IH]; intros n t; simpl;
    destruct (observe t) as [r | t' | X e h]; auto.
  destruct e; rewrite ?IH; auto.
  rewrite H. destruct (scans w2 n); rewrite ?IH; reflexivity.
Qed.

(* ===================================================================== *)
(** ** The report of one scan *)
(* ===================================================================== *)

(** C3.  For every scan result (a list of 7-bit addresses), [report] runs
    to its end and writes exactly one line
    [I2C device found at address 0xXX!] per address, in order, where XX is
    the address as two zero-padded uppercase hexadecimal digits; for the
    empty result it writes exactly the one line [No I2C devices found].
    In particular [report([])] writes [No I2C devices found] and
    [report([0x3C])] writes [I2C device found at address 0x3C!]. *)
Theorem report_writes_one_line_per_address w n fuel :
  (forall devices,
      Forall is_address devices ->
      let r := run w (report_cost devices + fuel) n (report devices) in
      outcome r = Returned tt /\ fuel_left r = fuel /\
      stdout (trace r)
      = match devices with
        | [] => lines ["No I2C devices found"]
        | _ :: _ =>
            lines (List.map (fun d => "I2C device found at address 0x"
                                      ++ two_hex_digits d ++ "!") devices)
        end)
  /\ stdout (trace (run w (1 + fuel) n (report [])))
     = "No I2C devices found" ++ Py.newline
  /\ stdout (trace (run w (1 + fuel) n (report [0x3C])))
     = "I2C device found at address 0x3C!" ++ Py.newline.
Proof.
  split; [|split].
  - intros devices Hd r. subst r.
    rewrite (completes_report w devices n fuel). simpl.
    split; [reflexivity | split; [reflexivity|]].
    rewrite stdout_report_events. destruct devices as [|d l]; [reflexivity|].
    unfold report_text. f_equal. apply map_ext_in.
    intros a Ha. unfold found_line. rewrite format_02X_byte; [reflexivity|].
    rewrite Forall_forall in Hd. specialize (Hd a Ha). unfold is_address in Hd. lia.
  - exact (f_equal (fun r => stdout (trace r)) (completes_report w [] n fuel)).
  - exact (f_equal (fun r => stdout (trace r)) (completes_report w [0x3C] n fuel)).
Qed.

Lemma report_writes_one_line_per_address_witness :
  Forall is_address [0x3C; 0x68] /\
  stdout (trace (run (MkWorld (fun _ => Returns []) [] []) (2 + 0) 0 (report [0x3C; 0x68])))
  = lines ["I2C device found at address 0x3C!"; "I2C device found at address 0x68!"].
Proof.
  assert (H : Forall is_address [0x3C; 0x68])
    by (repeat constructor; unfold is_address; lia).
  split; [exact H|].
  exact (proj2 (proj2 (proj1 (report_writes_one_line_per_address
                                (MkWorld (fun _ => Returns []) [] []) 0 0)
                             [0x3C; 0x68] H))).
Defined.

(* ===================================================================== *)
(** ** The loop of [scan_i2c] *)
(* ===================================================================== *)

Lemma scan_i2c_prefix w i2c devs m :
  scans_return w devs m ->
  run w (scan_i2c_cost devs m) 0 (scan_i2c i2c)
  = MkRun (scan_i2c_events i2c devs m) Running m 0.
Proof.
  intros H. rewrite <- (Nat.add_0_r (scan_i2c_cost devs m)).
  rewrite (run_scan_i2c w i2c devs m 0 H).
  unfold prepend. simpl. rewrite app_nil_r. reflexivity.
Qed.

Lemma filter_prints p (f : Z -> string) l :
  (forall s, p (EvPrint s) = false) ->
  List.filter p (List.map (fun d => EvPrint (f d)) l) = [].
Proof.
  intros Hp. induction l as [|x l IH]; simpl; [reflexivity | now rewrite Hp].
Qed.

Lemma count_report_events p devices :
  (forall s, p (EvPrint s) = false) -> count p (report_events devices) = 0%nat.
Proof.
  intros Hp. unfold count.
  destruct devices as [|d l]; unfold report_events.
  - simpl. now rewrite Hp.
  - now rewrite filter_prints.
Qed.

Lemma count_app p tr1 tr2 : count p (tr1 ++ tr2) = (count p tr1 + count p tr2)%nat.
Proof. unfold count. now rewrite filter_app, length_app. Qed.

Lemma count_iteration_events i2c devices :
  count is_scan (iteration_events i2c devices) = 1%nat
  /\ count is_sleep (iteration_events i2c devices) = 1%nat.
Proof.
  unfold iteration_events.
  rewrite !count_app, !count_report_events by reflexivity.
  split; reflexivity.
Qed.

Lemma count_loop_events i2c devs m :
  forall n,
    count is_scan (loop_events i2c devs n m) = m
    /\ count is_sleep (loop_events i2c devs n m) = m.
Proof.
  induction m as [|m IH]; intros n; [split; reflexivity|].
  rewrite loop_events_S, !count_app.
  destruct (count_iteration_events i2c (devs n)) as [-> ->].
  destruct (IH (S n)) as [-> ->]. split; reflexivity.
Qed.

(** C4.  While the scans return, [scan_i2c] goes round its loop for ever:
    after the banner, the run is one iteration after the other, each made
    of the line [Scanning...], exactly one scan, exactly one report, the
    line [done] and a sleep of the interval; so [m] iterations make [m]
    scans and [m] sleeps, and whatever the number of steps, the run has
    neither returned nor stopped. *)
Theorem scan_i2c_loops_forever w i2c devs :
  (forall k, scans w k = Returns (devs k)) ->
  (forall m,
      let r := run w (scan_i2c_cost devs m) 0 (scan_i2c i2c) in
      trace r = EvPrint banner :: flat_map (fun k => iteration_events i2c (devs k)) (seq 0 m)
      /\ scans_done r = m
      /\ count is_scan (trace r) = m
      /\ count is_sleep (trace r) = m)
  /\ (forall fuel, outcome (run w fuel 0 (scan_i2c i2c)) = Running).
Proof.
  intros H. split.
  - intros m r. subst r.
    rewrite scan_i2c_prefix by (intros k _; apply H). simpl.
    split; [reflexivity | split; [reflexivity|]].
    destruct (count_loop_events i2c devs m 0%nat) as [Hs Hz].
    unfold count in *. simpl. auto.
  - intros fuel.
    destruct (outcome (run w fuel 0 (scan_i2c i2c))) as [v | e |] eqn:Ho.
    + destruct v.
    + exfalso. exact (scans_return_not_uncaught w devs fuel H _ _ _ Ho).
    + reflexivity.
Qed.

Lemma scan_i2c_loops_forever_witness :
  (forall k, scans (MkWorld (fun _ => Returns [0x3C; 0x68]) [] []) k
             = Returns ((fun _ => [0x3C; 0x68]) k))
  /\ outcome (run (MkWorld (fun _ => Returns [0x3C; 0x68]) [] []) 1000 0
                  (scan_i2c the_i2c)) = Running.
Proof.
  assert (H : forall k, scans (MkWorld (fun _ => Returns [0x3C; 0x68]) [] []) k
                        = Returns ((fun _ => [0x3C; 0x68]) k))
    by (intros k; reflexivity).
  split; [exact H|].
  exact (proj2 (scan_i2c_loops_forever _ the_i2c (fun _ => [0x3C; 0x68]) H) 1000%nat).
Defined.

(** Whatever the world does, [scan_i2c] does not return: a run is in
    progress, or was ended by an exception of the platform. *)
Lemma scan_i2c_not_returned w i2c fuel n r :
  outcome (run w fuel n (scan_i2c i2c)) <> Returned r.
Proof. destruct r. Qed.

(** C5.  While the scans return, standard output is the banner, written
    once, and then for every iteration the line [Scanning...], then either
    one line per address found or the one line [No I2C devices found], then
    the line [done] and an empty line, in this order. *)
Theorem output_stream_shape w i2c devs m :
  scans_return w devs m ->
  stdout (trace (run w (scan_i2c_cost devs m) 0 (scan_i2c i2c)))
  = lines [""; "Soldered I2C Scanner!"]
    ++ join (List.map
               (fun k =>
                  lines ["Scanning..."]
                  ++ match devs k with
                     | [] => lines ["No I2C devices found"]
                     | _ :: _ => lines (List.map found_line (devs k))
                     end
                  ++ lines ["done"; ""])
               (seq 0 m)).
Proof.
  intros H. rewrite scan_i2c_prefix by exact H. simpl trace.
  apply stdout_scan_i2c_events.
Qed.

Lemma output_stream_shape_witness :
  scans_return (MkWorld (fun _ => Returns [0x3C; 0x68]) [] []) (fun _ => [0x3C; 0x68]) 1
  /\ stdout (trace (run (MkWorld (fun _ => Returns [0x3C; 0x68]) [] [])
                        (scan_i2c_cost (fun _ => [0x3C; 0x68]) 1) 0 (scan_i2c the_i2c)))
     = lines [""; "Soldered I2C Scanner!"; "Scanning...";
              "I2C device found at address 0x3C!";
              "I2C device found at address 0x68!"; "done"; ""].
Proof.
  assert (H : scans_return (MkWorld (fun _ => Returns [0x3C; 0x68]) [] [])
                           (fun _ => [0x3C; 0x68]) 1)
    by (intros k _; reflexivity).
  split; [exact H|].
  exact (output_stream_shape _ the_i2c (fun _ => [0x3C; 0x68]) 1 H).
Defined.

(* ===================================================================== *)
(** ** The interval between two scans *)
(* ===================================================================== *)

Lemma scan_i2c_body_sleeps_five w i2c : trace_all w sleeps_five (scan_i2c_body i2c).
Proof.
  unfold scan_i2c_body.
  apply trace_all_bind; [apply trace_all_print; exact I | intros _].
  apply trace_all_bind; [apply trace_all_scan; intros a; exact I | intros devices].
  apply trace_all_bind; [|intros _].
  - unfold report. destruct (Py.truthy devices).
    + apply trace_all_for_each. intros d. apply trace_all_print. exact I.
    + apply trace_all_print. exact I.
  - apply trace_all_bind; [apply trace_all_print; exact I | intros _].
    apply trace_all_sleep. reflexivity.
Qed.

Lemma scan_i2c_sleeps_five w i2c : trace_all w sleeps_five (scan_i2c i2c).
Proof.
  unfold scan_i2c.
  apply trace_all_bind; [apply trace_all_print; exact I | intros _].
  apply trace_all_forever, scan_i2c_body_sleeps_five.
Qed.

(* ===================================================================== *)
(** ** The output of one iteration *)
(* ===================================================================== *)

Lemma scan_i2c_text_S devs m :
  scan_i2c_text devs (S m) = scan_i2c_text devs m ++ iteration_text (devs m).
Proof.
  unfold scan_i2c_text.
  rewrite seq_S, List.map_app, join_app. cbn [List.map join Nat.add].
  rewrite string_app_nil_r. symmetry. apply string_app_assoc.
Qed.

Lemma scans_return_le w devs m m' :
  (m' <= m)%nat -> scans_return w devs m -> scans_return w devs m'.
Proof. intros Hle H k Hk. apply H. lia. Qed.

Lemma iteration_output_text w i2c i :
  scans_return w (world_devs w) (S i) ->
  iteration_output w i2c i = iteration_text (world_devs w i).
Proof.
  intros H. unfold iteration_output.
  rewrite (scan_i2c_prefix w i2c _ (S i) H).
  rewrite (scan_i2c_prefix w i2c _ i (scans_return_le _ _ _ _ (Nat.le_succ_diag_r i) H)).
  simpl trace. rewrite !stdout_scan_i2c_events, scan_i2c_text_S.
  apply string_drop_app.
Qed.

(** C10.  The text written during one iteration is a function of the list
    that [i2c.scan()] returned in that iteration and of nothing else: in two
    runs, in worlds that may differ in every other scan, an iteration of the
    one and an iteration of the other in which the scan returns the same
    list write the same text, character for character. *)
Theorem iteration_output_deterministic i2c w1 w2 i j devices :
  scans_return w1 (world_devs w1) (S i) ->
  scans_return w2 (world_devs w2) (S j) ->
  scans w1 i = Returns devices ->
  scans w2 j = Returns devices ->
  iteration_output w1 i2c i = iteration_output w2 i2c j
  /\ iteration_output w1 i2c i = iteration_text devices.
Proof.
  intros H1 H2 Hi Hj.
  rewrite !iteration_output_text by assumption.
  unfold world_devs. rewrite Hi, Hj. split; reflexivity.
Qed.

Lemma iteration_output_deterministic_witness :
  let w1 := MkWorld (fun k => match k with O => Returns [0x3C] | _ => Returns [] end) [] [] in
  let w2 := MkWorld (fun _ => Returns []) ["-v"] [("HOME", "/")] in
  scans_return w1 (world_devs w1) 2
  /\ scans_return w2 (world_devs w2) 1
  /\ scans w1 1 = Returns []
  /\ scans w2 0 = Returns []
  /\ iteration_output w1 the_i2c 1 = iteration_output w2 the_i2c 0.
Proof.
  intros w1 w2.
  assert (H1 : scans_return w1 (world_devs w1) 2)
    by (intros k Hk; destruct k as [|[|k]]; [reflexivity | reflexivity | lia]).
  assert (H2 : scans_return w2 (world_devs w2) 1)
    by (intros k Hk; reflexivity).
  repeat (split; [first [exact H1 | exact H2 | reflexivity]|]).
  exact (proj1 (iteration_output_deterministic the_i2c w1 w2 1 0 [] H1 H2 eq_refl eq_refl)).
Defined.

(* ===================================================================== *)
(** ** The entry point *)
(* ===================================================================== *)

Lemma completes_i2c_init w n : completes w i2c_init n 3 init_events the_i2c n.
Proof.
  intros fuel. unfold i2c_init. simpl. unfold emit. simpl.
  rewrite run_ret with (r := the_i2c); reflexivity.
Qed.

(** C8.  Executed as the main program, the module builds the bus object
    and then runs [scan_i2c], whatever the world; and its behaviour is the
    same in any two worlds that differ only in the command line and in the
    environment variables. *)
Theorem main_runs_scan_i2c w fuel :
  run w (3 + fuel) 0 (module_main "__main__")
  = prepend init_events (as_module_run (run w fuel 0 (scan_i2c the_i2c)))
  /\ (forall w', (forall k, scans w' k = scans w k) ->
                 run w' fuel 0 (module_main "__main__")
                 = run w fuel 0 (module_main "__main__")).
Proof.
  split.
  - unfold module_main. rewrite run_bind, completes_i2c_init.
    unfold and_then at 1. simpl outcome. cbv iota beta. simpl String.eqb. cbv iota.
    simpl scans_done. simpl fuel_left. simpl trace.
    rewrite run_bind. unfold and_then, prepend, as_module_run.
    destruct (outcome (run w fuel 0 (scan_i2c the_i2c))) as [v | e |];
      [destruct v | reflexivity | reflexivity].
  - intros w' H. apply run_ext, H.
Qed.

Lemma main_runs_scan_i2c_witness :
  let w := MkWorld (fun _ => Returns [0x3C]) [] [] in
  let w' := MkWorld (fun _ => Returns [0x3C]) ["-v"] [("HOME", "/")] in
  (forall k, scans w' k = scans w k)
  /\ run w' 20 0 (module_main "__main__") = run w 20 0 (module_main "__main__").
Proof.
  intros w w'.
  assert (H : forall k, scans w' k = scans w k) by (intros k; reflexivity).
  split; [exact H|].
  exact (proj2 (main_runs_scan_i2c w 20) w' H).
Defined.

(** X6.  Imported under another name, the module still builds the two
    pins and the bus object, and stops there: it returns without a line of
    output, a scan or a sleep. *)
Lemma import_does_not_scan w fuel name :
  String.eqb name "__main__" = false ->
  run w (3 + fuel) 0 (module_main name) = MkRun init_events (Returned tt) 0 fuel.
Proof.
  intros H. unfold module_main. rewrite run_bind, completes_i2c_init.
  unfold and_then; simpl. rewrite H.
  rewrite run_ret with (r := tt) by reflexivity. reflexivity.
Qed.

(* ===================================================================== *)
(** ** The sweep of the driver *)
(* ===================================================================== *)

Section SweepFacts.

Import Sweep.
Variable bus : Bus.

Lemma sweep_from_mem count :
  forall addr found,
    sweep_from bus addr count = inr found ->
    forall a, In a found <-> (addr <= a < addr + Z.of_nat count /\ bus a = Ack).
Proof.
  induction count as [|count IH]; intros addr found H a; simpl in H.
  - injection H as <-. simpl. split; [tauto | lia].
  - destruct (bus addr) eqn:Hb.
    + destruct (sweep_from bus (addr + 1) count) as [e | l] eqn:Hs; [discriminate|].
      injection H as <-. simpl. rewrite (IH _ _ Hs). split.
      * intros [<- | [Hr Ha]]; split; auto; lia.
      * intros [Hr Ha]. destruct (Z.eq_dec addr a); [left; assumption | right].
        split; [lia | assumption].
    + rewrite (IH _ _ H). split; intros [Hr Ha]; split; auto; try lia.
      destruct (Z.eq_dec a addr) as [-> | Hne]; [congruence | lia].
    + discriminate.
Qed.

Lemma sweep_from_sorted count :
  forall addr found,
    sweep_from bus addr count = inr found -> StronglySorted Z.lt found.
Proof.
  induction count as [|count IH]; intros addr found H; simpl in H.
  - injection H as <-. constructor.
  - destruct (bus addr) eqn:Hb.
    + destruct (sweep_from bus (addr + 1) count) as [e | l] eqn:Hs; [discriminate|].
      injection H as <-. constructor; [exact (IH _ _ Hs)|].
      apply Forall_forall. intros a Ha.
      apply (sweep_from_mem _ _ _ Hs) in Ha. lia.
    + exact (IH _ _ H).
    + discriminate.
Qed.

Lemma sweep_from_no_fault count :
  forall addr,
    (forall a, addr <= a < addr + Z.of_nat count -> bus a <> Fault) ->
    exists found, sweep_from bus addr count = inr found.
Proof.
  induction count as [|count IH]; intros addr H; simpl.
  - eexists; reflexivity.
  - destruct (IH (addr + 1)) as [l Hl]; [intros a Ha; apply H; lia|].
    rewrite Hl. destruct (bus addr) eqn:Hb; try (eexists; reflexivity).
    exfalso. apply (H addr); [lia | exact Hb].
Qed.

Lemma sweep_from_fault count :
  forall addr e,
    sweep_from bus addr count = inl e ->
    exists a, addr <= a < addr + Z.of_nat count /\ bus a = Fault.
Proof.
  induction count as [|count IH]; intros addr e H; simpl in H; [discriminate|].
  destruct (bus addr) eqn:Hb.
  - destruct (sweep_from bus (addr + 1) count) as [e' | l] eqn:Hs; [|discriminate].
    destruct (IH _ _ Hs) as [a [Hr Ha]]. exists a. split; [lia | exact Ha].
  - destruct (IH _ _ H) as [a [Hr Ha]]. exists a. split; [lia | exact Ha].
  - exists addr. split; [lia | exact Hb].
Qed.

Lemma strictly_ascending_NoDup (l : list Z) : StronglySorted Z.lt l -> NoDup l.
Proof.
  induction 1 as [|a l Hs IH Hall]; constructor; [|exact IH].
  intros Hin. rewrite Forall_forall in Hall. specialize (Hall a Hin). lia.
Qed.

End SweepFacts.

Lemma sweep_eq bus :
  Sweep.sweep bus = Sweep.sweep_from bus 0 Sweep.address_space.
Proof. unfold Sweep.sweep. reflexivity. Qed.

Lemma address_space_eq : Z.of_nat Sweep.address_space = 128.
Proof. reflexivity. Qed.

(** C1.  Whenever the sweep returns a result, an address is in the result
    iff it is one of the addresses 0..127 and its probe was acknowledged
    during that sweep; on a simulated bus on which exactly 0x3C and 0x68
    acknowledge, the sweep returns [0x3C, 0x68], in this order. *)
Theorem sweep_returns_the_acknowledged :
  (forall bus found,
      Sweep.sweep bus = inr found ->
      forall a, In a found <-> (is_address a /\ bus a = Sweep.Ack))
  /\ Sweep.sweep (Sweep.simulated [0x3C; 0x68]) = inr [0x3C; 0x68].
Proof.
  split; [|vm_compute; reflexivity].
  intros bus found H a. rewrite sweep_eq in H.
  rewrite (sweep_from_mem bus _ _ _ H a). unfold is_address.
  rewrite address_space_eq.
  split; intros [Hr Ha]; (split; [lia | exact Ha]).
Qed.

Lemma sweep_returns_the_acknowledged_witness :
  Sweep.sweep (Sweep.simulated [0x3C; 0x68]) = inr [0x3C; 0x68]
  /\ (In 0x68 [0x3C; 0x68]
      <-> (is_address 0x68 /\ Sweep.simulated [0x3C; 0x68] 0x68 = Sweep.Ack)).
Proof.
  assert (H : Sweep.sweep (Sweep.simulated [0x3C; 0x68]) = inr [0x3C; 0x68])
    by (vm_compute; reflexivity).
  split; [exact H|].
  exact (proj1 sweep_returns_the_acknowledged
               (Sweep.simulated [0x3C; 0x68]) [0x3C; 0x68] H 0x68).
Defined.

(** C2.  Every address of the result of a sweep lies in 0..127, and the
    result is strictly ascending, hence without duplicates. *)
Theorem sweep_result_in_range_and_ascending bus found :
  Sweep.sweep bus = inr found ->
  Forall is_address found /\ StronglySorted Z.lt found /\ NoDup found.
Proof.
  intros H. rewrite sweep_eq in H.
  pose proof (sweep_from_sorted bus _ _ _ H) as Hs.
  split; [|split; [exact Hs | apply strictly_ascending_NoDup, Hs]].
  apply Forall_forall. intros a Ha.
  apply (sweep_from_mem bus _ _ _ H) in Ha. unfold is_address.
  rewrite address_space_eq in Ha. lia.
Qed.

Lemma sweep_result_in_range_and_ascending_witness :
  Sweep.sweep (Sweep.simulated [0x68; 0x3C; 0x3C; 200]) = inr [0x3C; 0x68]
  /\ Forall is_address [0x3C; 0x68]
  /\ StronglySorted Z.lt [0x3C; 0x68]
  /\ NoDup [0x3C; 0x68].
Proof.
  assert (H : Sweep.sweep (Sweep.simulated [0x68; 0x3C; 0x3C; 200]) = inr [0x3C; 0x68])
    by (vm_compute; reflexivity).
  split; [exact H|].
  exact (sweep_result_in_range_and_ascending _ _ H).
Defined.

(** C7.  A sweep in which no probe of an address 0..127 meets a transport
    fault returns a result, whichever probes are not acknowledged; and a
    sweep that fails met a transport fault at one of these addresses. *)
Theorem sweep_fails_only_on_fault bus :
  ((forall a, is_address a -> bus a <> Sweep.Fault) ->
   exists found, Sweep.sweep bus = inr found)
  /\ (forall e, Sweep.sweep bus = inl e ->
                exists a, is_address a /\ bus a = Sweep.Fault).
Proof.
  split.
  - intros H. rewrite sweep_eq. apply sweep_from_no_fault.
    rewrite address_space_eq.
    intros a Ha. apply H. unfold is_address. lia.
  - intros e H. rewrite sweep_eq in H.
    destruct (sweep_from_fault bus _ _ _ H) as [a [Hr Ha]].
    rewrite address_space_eq in Hr.
    exists a. split; [unfold is_address; lia | exact Ha].
Qed.

Lemma sweep_fails_only_on_fault_witness :
  (forall a, is_address a -> Sweep.simulated [] a <> Sweep.Fault)
  /\ exists found, Sweep.sweep (Sweep.simulated []) = inr found.
Proof.
  assert (H : forall a, is_address a -> Sweep.simulated [] a <> Sweep.Fault)
    by (intros a _; discriminate).
  split; [exact H|].
  exact (proj1 (sweep_fails_only_on_fault (Sweep.simulated [])) H).
Defined.

(** The script on top of the driver: with 0x3C and 0x68 on the bus, the
    first iteration reports the two addresses. *)
Example first_iteration_on_simulated_bus :
  iteration_output (Sweep.world_of (fun _ => Sweep.simulated [0x3C; 0x68])) the_i2c 0
  = lines ["Scanning..."; "I2C device found at address 0x3C!";
           "I2C device found at address 0x68!"; "done"; ""].
Proof. vm_compute. reflexivity. Qed.

(* ===================================================================== *)
(** ** Runs follow the protocol *)
(* ===================================================================== *)

Section Follows.

Variable w : World.
Context {St : Type}.
Variable step : St -> event -> option St.

Lemma accepts_app s tr1 tr2 :
  accepts step s (tr1 ++ tr2)
  = match accepts step s tr1 with
    | Some s' => accepts step s' tr2
    | None => None
    end.
Proof.
  revert s. induction tr1 as [|ev tr1 IH]; intros s; simpl; [reflexivity|].
  destruct (step s ev); [apply IH | reflexivity].
Qed.

Lemma follows_ret {R} s (r : R) (post : R -> St -> Prop) :
  post r s -> follows w step s (Ret r) post.
Proof.
  intros H fuel n. rewrite run_ret with (r := r) by reflexivity. simpl.
  exists s. split; [reflexivity|]. intros r' Hr. injection Hr as <-. exact H.
Qed.

Lemma follows_print s s' str (post : unit -> St -> Prop) :
  step s (EvPrint str) = Some s' -> post tt s' ->
  follows w step s (print str) post.
Proof.
  intros Hs Hp [|fuel] n; simpl.
  - exists s. split; [reflexivity | discriminate].
  - rewrite run_ret with (r := tt) by reflexivity. simpl. rewrite Hs.
    exists s'. split; [reflexivity|]. intros [] _. exact Hp.
Qed.

Lemma follows_sleep s s' d (post : unit -> St -> Prop) :
  step s (EvSleep d) = Some s' -> post tt s' ->
  follows w step s (sleep d) post.
Proof.
  intros Hs Hp [|fuel] n; simpl.
  - exists s. split; [reflexivity | discriminate].
  - rewrite run_ret with (r := tt) by reflexivity. simpl. rewrite Hs.
    exists s'. split; [reflexivity|]. intros [] _. exact Hp.
Qed.

Lemma follows_scan s bus (post : list Z -> St -> Prop) :
  (forall a, exists s', step s (EvScan bus a) = Some s'
                        /\ forall devices, a = Returns devices -> post devices s') ->
  follows w step s (scan bus) post.
Proof.
  intros H [|fuel] n; simpl.
  - exists s. split; [reflexivity | discriminate].
  - destruct (H (scans w n)) as [s' [Hs Hp]].
    destruct (scans w n) as [devices | e]; simpl.
    + rewrite run_ret with (r := devices) by reflexivity. simpl. rewrite Hs.
      exists s'. split; [reflexivity|].
      intros r Hr. injection Hr as <-. apply Hp. reflexivity.
    + rewrite Hs. exists s'. split; [reflexivity | discriminate].
Qed.

Lemma follows_bind {R T} s (t : itree ioE R) (k : R -> itree ioE T)
    (mid : R -> St -> Prop) (post : T -> St -> Prop) :
  follows w step s t mid ->
  (forall r s1, mid r s1 -> follows w step s1 (k r) post) ->
  follows w step s (ITree.bind t k) post.
Proof.
  intros Ht Hk fuel n. rewrite run_bind. unfold and_then.
  destruct (Ht fuel n) as [s1 [Ha Hm]].
  destruct (outcome (run w fuel n t)) as [r | e |]; simpl.
  - destruct (Hk r s1 (Hm r eq_refl) (fuel_left (run w fuel n t))
                (scans_done (run w fuel n t))) as [s2 [Ha2 Hp]].
    exists s2. rewrite accepts_app, Ha. split; assumption.
  - exists s1. split; [exact Ha | discriminate].
  - exists s1. split; [exact Ha | discriminate].
Qed.

Lemma follows_weaken {R} s (t : itree ioE R) (post post' : R -> St -> Prop) :
  follows w step s t post -> (forall r s', post r s' -> post' r s') ->
  follows w step s t post'.
Proof.
  intros H Hw fuel n. destruct (H fuel n) as [s' [Ha Hp]].
  exists s'. split; [exact Ha | intros r Hr; apply Hw, Hp, Hr].
Qed.

(** A loop whose body takes states of [inv] to states of [inv] is accepted
    from every state of [inv]. *)
Lemma follows_forever {R U} (inv : St -> Prop) (t : itree ioE R)
    (post : U -> St -> Prop) :
  (forall s, inv s -> follows w step s t (fun _ s' => inv s')) ->
  forall s, inv s -> follows w step s (@ITree.forever ioE R U t) post.
Proof.
  intros Ht s Hs fuel. revert s Hs.
  induction fuel as [fuel IH] using lt_wf_ind. intros s Hs n.
  rewrite run_forever_unfold. unfold and_then.
  pose proof (fuel_left_le w fuel n t) as Hle.
  destruct (Ht s Hs fuel n) as [s1 [Ha Hm]].
  destruct (outcome (run w fuel n t)) as [r | e |]; simpl.
  - rewrite accepts_app, Ha.
    destruct (fuel_left (run w fuel n t)) as [|fuel'] eqn:Hf; simpl.
    + exists s1. split; [reflexivity | discriminate].
    + apply IH; [lia | apply (Hm r eq_refl)].
  - exists s1. split; [exact Ha | discriminate].
  - exists s1. split; [exact Ha | discriminate].
Qed.

End Follows.

Section Conformance.

Variable w : World.
Variable i2c : I2C.

Lemma I2C_eqb_refl (a : I2C) : I2C_eqb a a = true.
Proof. unfold I2C_eqb, Pin_eqb. rewrite !Z.eqb_refl. reflexivity. Qed.

Lemma follows_found_lines l :
  l <> [] ->
  follows w (protocol i2c) (Reporting l)
          (for_each l (fun device => print (found_line device)))
          (fun _ ph => ph = Reported).
Proof.
  induction l as [|d l IH]; intros Hne; [congruence|]. simpl for_each.
  apply follows_bind with (mid := fun _ ph => ph = after_line l).
  - apply follows_print with (s' := after_line l); [|reflexivity].
    simpl. rewrite String.eqb_refl. reflexivity.
  - intros _ ph ->. destruct l as [|d' l'].
    + apply follows_ret. reflexivity.
    + apply IH. discriminate.
Qed.

Lemma follows_report devices :
  follows w (protocol i2c) (after_scan devices) (report devices)
          (fun _ ph => ph = Reported).
Proof.
  destruct devices as [|d l].
  - apply follows_print with (s' := Reported); reflexivity.
  - apply follows_found_lines. discriminate.
Qed.

Lemma follows_scan_i2c_body :
  follows w (protocol i2c) Idle (scan_i2c_body i2c) (fun _ ph => ph = Idle).
Proof.
  unfold scan_i2c_body.
  apply follows_bind with (mid := fun _ ph => ph = Scanning);
    [apply follows_print with (s' := Scanning); reflexivity | intros _ ph ->].
  apply follows_bind with (mid := fun devices ph => ph = after_scan devices).
  { apply follows_scan. intros [devices | e]; simpl; rewrite I2C_eqb_refl.
    - exists (after_scan devices). split; [reflexivity|].
      intros ds Hds. injection Hds as <-. reflexivity.
    - exists Crashed. split; [reflexivity | discriminate]. }
  intros devices ph ->.
  apply follows_bind with (mid := fun _ ph => ph = Reported);
    [apply follows_report | intros _ ph ->].
  apply follows_bind with (mid := fun _ ph => ph = Done);
    [apply follows_print with (s' := Done); reflexivity | intros _ ph ->].
  apply follows_sleep with (s' := Idle); reflexivity.
Qed.

Lemma follows_scan_i2c (post : void -> phase -> Prop) :
  follows w (protocol i2c) Start (scan_i2c i2c) post.
Proof.
  unfold scan_i2c.
  apply follows_bind with (mid := fun _ ph => ph = Idle);
    [apply follows_print with (s' := Idle); reflexivity | intros _ ph ->].
  apply follows_forever with (inv := fun ph => ph = Idle); [|reflexivity].
  intros ph ->. apply follows_scan_i2c_body.
Qed.

End Conformance.

Lemma follows_i2c_init w :
  follows w (protocol the_i2c) Boot i2c_init
          (fun i2c ph => i2c = the_i2c /\ ph = Start).
Proof.
  intros [|[|[|fuel]]] n; simpl;
    try (eexists; split; [reflexivity | discriminate]).
  rewrite run_ret with (r := the_i2c) by reflexivity. simpl.
  exists Start. split; [reflexivity|].
  intros r Hr. injection Hr as <-. split; reflexivity.
Qed.

Lemma follows_module_main w (post : unit -> phase -> Prop) :
  follows w (protocol the_i2c) Boot (module_main "__main__") post.
Proof.
  unfold module_main.
  apply follows_bind with (mid := fun i2c ph => i2c = the_i2c /\ ph = Start);
    [apply follows_i2c_init | intros i2c ph [-> ->]].
  simpl String.eqb. cbv iota.
  apply follows_bind with (mid := fun (_ : void) (_ : phase) => False);
    [apply follows_scan_i2c | intros v; destruct v].
Qed.

(** How scans and sleeps balance along an accepted sequence of events. *)
Lemma protocol_balance i2c tr :
  forall ph ph',
    accepts (protocol i2c) ph tr = Some ph' ->
    (count is_scan tr + owes_sleep ph = count is_sleep tr + owes_sleep ph')%nat.
Proof.
  induction tr as [|ev tr IH]; intros ph ph' H; simpl in H.
  - injection H as <-. reflexivity.
  - destruct (protocol i2c ph ev) as [ph1|] eqn:Hstep; [|discriminate].
    specialize (IH _ _ H).
    change (ev :: tr) with ([ev] ++ tr)%list. rewrite !count_app.
    assert (Hone : (count is_scan [ev] + owes_sleep ph
                    = count is_sleep [ev] + owes_sleep ph1)%nat).
    { destruct ph, ev; simpl in Hstep; try discriminate;
        repeat match type of Hstep with
               | context [match ?x with _ => _ end] => destruct x; try discriminate
               end;
        injection Hstep as <-; try reflexivity;
        unfold after_scan, after_line;
        repeat match goal with
               | |- context [match ?x with _ => _ end] => destruct x
               end; reflexivity. }
    lia.
Qed.

(* ===================================================================== *)
(** ** The address in a line *)
(* ===================================================================== *)

Lemma hex_value_digit d : 0 <= d < 16 -> hex_value (Py.hex_digit d) = Some d.
Proof.
  intros H.
  assert (Hc : d = 0 \/ d = 1 \/ d = 2 \/ d = 3 \/ d = 4 \/ d = 5 \/ d = 6 \/ d = 7
               \/ d = 8 \/ d = 9 \/ d = 10 \/ d = 11 \/ d = 12 \/ d = 13
               \/ d = 14 \/ d = 15) by lia.
  repeat (destruct Hc as [-> | Hc]; [reflexivity|]). subst d. reflexivity.
Qed.

Lemma parse_hex_app s1 s2 :
  forall v,
    parse_hex v (s1 ++ s2)
    = match parse_hex v s1 with
      | Some v' => parse_hex v' s2
      | None => None
      end.
Proof.
  induction s1 as [|c s1 IH]; intros v; simpl; [reflexivity|].
  destruct (hex_value c); [apply IH | reflexivity].
Qed.

Lemma pow16_succ (k : nat) : 16 ^ Z.of_nat (S k) = 16 * 16 ^ Z.of_nat k.
Proof. rewrite Nat2Z.inj_succ, Z.pow_succ_r by lia. reflexivity. Qed.

Lemma pow16_pos (k : nat) : 0 < 16 ^ Z.of_nat k.
Proof. apply Z.pow_pos_nonneg; lia. Qed.

(** What [hex_digits] writes in front of [acc]: the digits of [n], at least
    one, as many as [n] needs and no more. *)
Lemma hex_digits_spec fuel :
  forall n acc,
    (0 < fuel)%nat ->
    0 <= n < 16 ^ Z.of_nat fuel ->
    exists ds,
      Py.hex_digits fuel n acc = ds ++ acc
      /\ (forall v, parse_hex v ds = Some (v * 16 ^ Z.of_nat (String.length ds) + n))
      /\ n < 16 ^ Z.of_nat (String.length ds)
      /\ (String.length ds = 1%nat \/ 16 ^ Z.of_nat (String.length ds - 1) <= n).
Proof.
  induction fuel as [|fuel IH]; intros n acc Hfuel Hn.
  - lia.
  - simpl Py.hex_digits.
    pose proof (Z.div_mod n 16 ltac:(lia)) as Hdm.
    pose proof (Z.mod_pos_bound n 16 ltac:(lia)) as Hmod.
    destruct (n / 16 =? 0) eqn:Hq.
    + apply Z.eqb_eq in Hq.
      exists (String (Py.hex_digit (n mod 16)) EmptyString).
      split; [reflexivity|]. split; [|split; [|left; reflexivity]].
      * intros v. cbn [parse_hex String.length].
        rewrite hex_value_digit by lia.
        change (16 ^ Z.of_nat 1) with 16. f_equal. lia.
      * cbn [String.length]. change (16 ^ Z.of_nat 1) with 16. lia.
    + apply Z.eqb_neq in Hq.
      rewrite pow16_succ in Hn.
      assert (Hq' : 0 < n / 16 < 16 ^ Z.of_nat fuel).
      { split; [|apply Z.div_lt_upper_bound; lia].
        assert (0 <= n / 16) by (apply Z.div_pos; lia). lia. }
      assert (Hf : (0 < fuel)%nat).
      { destruct fuel; [simpl in Hq'; lia | lia]. }
      destruct (IH (n / 16) (String (Py.hex_digit (n mod 16)) acc) Hf ltac:(lia))
        as [ds [Heq [Hparse [Hlt Hge]]]].
      exists (ds ++ String (Py.hex_digit (n mod 16)) EmptyString).
      rewrite string_app_assoc. split; [exact Heq|].
      rewrite string_length_app. simpl String.length.
      replace (String.length ds + 1)%nat with (S (String.length ds)) by lia.
      rewrite pow16_succ.
      split; [|split].
      * intros v. rewrite parse_hex_app, Hparse. cbn [parse_hex].
        rewrite hex_value_digit by lia. f_equal. lia.
      * lia.
      * right. replace (S (String.length ds) - 1)%nat with (String.length ds) by lia.
        destruct Hge as [H1 | Hge].
        -- rewrite H1. change (16 ^ Z.of_nat 1) with 16. lia.
        -- destruct (String.length ds) as [|k] eqn:Hlen.
           ++ simpl in Hlt. lia.
           ++ rewrite pow16_succ.
              replace (S k - 1)%nat with k in Hge by lia. lia.
Qed.

Lemma upper_hex_spec n :
  0 <= n ->
  (forall v, parse_hex v (Py.upper_hex n)
             = Some (v * 16 ^ Z.of_nat (String.length (Py.upper_hex n)) + n))
  /\ n < 16 ^ Z.of_nat (String.length (Py.upper_hex n))
  /\ (String.length (Py.upper_hex n) = 1%nat
      \/ 16 ^ Z.of_nat (String.length (Py.upper_hex n) - 1) <= n).
Proof.
  intros Hn. unfold Py.upper_hex.
  assert (Hfuel : 0 <= n < 16 ^ Z.of_nat (S (Z.to_nat (Z.log2 n)))).
  { split; [exact Hn|].
    rewrite Nat2Z.inj_succ, Z2Nat.id by apply Z.log2_nonneg.
    destruct (Z.eq_dec n 0) as [-> | Hne].
    - reflexivity.
    - pose proof (Z.log2_spec n ltac:(lia)) as [_ Hlt].
      pose proof (Z.log2_nonneg n) as Hl.
      assert (2 ^ Z.succ (Z.log2 n) <= 16 ^ Z.succ (Z.log2 n))
        by (apply Z.pow_le_mono_l; lia).
      lia. }
  destruct (hex_digits_spec _ n EmptyString (Nat.lt_0_succ _) Hfuel)
    as [ds [Heq Hrest]].
  rewrite string_app_nil_r in Heq. rewrite Heq. exact Hrest.
Qed.

Lemma upper_hex_length n :
  0 <= n ->
  (n < 16 -> String.length (Py.upper_hex n) = 1%nat)
  /\ (16 <= n < 256 -> String.length (Py.upper_hex n) = 2%nat)
  /\ (256 <= n -> (3 <= String.length (Py.upper_hex n))%nat).
Proof.
  intros Hn. destruct (upper_hex_spec n Hn) as [_ [Hlt Hge]].
  destruct (String.length (Py.upper_hex n)) as [|[|[|k]]].
  - simpl in Hlt. destruct Hge as [Hge | Hge]; [discriminate | simpl in Hge; lia].
  - change (16 ^ Z.of_nat 1) with 16 in Hlt. repeat split; intros; lia.
  - change (16 ^ Z.of_nat 2) with 256 in Hlt.
    destruct Hge as [Hge | Hge]; [discriminate|].
    change (16 ^ Z.of_nat (2 - 1)) with 16 in Hge. repeat split; intros; lia.
  - destruct Hge as [Hge | Hge]; [discriminate|].
    replace (S (S (S k)) - 1)%nat with (S (S k)) in Hge by lia.
    rewrite !pow16_succ in Hge. pose proof (pow16_pos k).
    repeat split; intros; lia.
Qed.

Lemma zero_pad_1 s : (1 <= String.length s)%nat -> Py.zero_pad 1 s = s.
Proof.
  intros H. unfold Py.zero_pad.
  replace (1 - String.length s)%nat with 0%nat by lia. reflexivity.
Qed.

Lemma zero_pad_2 s :
  (1 <= String.length s)%nat ->
  Py.zero_pad 2 s = if (String.length s =? 1)%nat then "0" ++ s else s.
Proof.
  intros H. unfold Py.zero_pad.
  destruct (String.length s) as [|[|k]]; [lia | reflexivity | reflexivity].
Qed.

Lemma upper_hex_nonempty n : 0 <= n -> (1 <= String.length (Py.upper_hex n))%nat.
Proof.
  intros Hn. destruct (upper_hex_spec n Hn) as [_ [Hlt Hge]].
  destruct (String.length (Py.upper_hex n)); [|lia].
  destruct Hge as [Hge | Hge]; [discriminate|]. simpl in Hlt, Hge. lia.
Qed.

Lemma parse_int16_digits s d :
  parse_hex 0 s = Some d -> s <> EmptyString -> parse_int16 s = Some d.
Proof.
  intros H Hne. destruct s as [|c s']; [congruence|].
  unfold parse_int16. destruct (Ascii.eqb c "-") eqn:Hc; [|exact H].
  apply Ascii.eqb_eq in Hc. subst c. cbn [parse_hex] in H.
  change (hex_value "-") with (@None Z) in H. discriminate.
Qed.

(** Reading back what ["{:02X}"] wrote gives the number, for every integer. *)
Lemma format_02X_round_trip d : parse_int16 (Py.format_02X d) = Some d.
Proof.
  unfold Py.format_02X. destruct (d <? 0) eqn:Hd.
  - apply Z.ltb_lt in Hd.
    rewrite zero_pad_1 by (apply upper_hex_nonempty; lia).
    destruct (upper_hex_spec (- d) ltac:(lia)) as [Hparse _].
    pose proof (upper_hex_nonempty (- d) ltac:(lia)) as Hlen.
    cbn [append parse_int16]. change (Ascii.eqb "-" "-") with true. cbv iota.
    destruct (Py.upper_hex (- d)) as [|c s'] eqn:Hu; [simpl in Hlen; lia|].
    rewrite Hparse. simpl. f_equal; lia.
  - apply Z.ltb_ge in Hd.
    destruct (upper_hex_spec d Hd) as [Hparse _].
    pose proof (upper_hex_nonempty d Hd) as Hlen.
    rewrite zero_pad_2 by exact Hlen.
    destruct (String.length (Py.upper_hex d) =? 1)%nat eqn:H1.
    + apply parse_int16_digits; [|discriminate].
      cbn [append parse_hex]. change (hex_value "0") with (Some 0).
      cbv iota beta. rewrite Hparse. f_equal; lia.
    + apply parse_int16_digits.
      * rewrite Hparse. f_equal; lia.
      * intros He. rewrite He in Hlen. simpl in Hlen. lia.
Qed.

Lemma string_app_inv_head (a b c : string) : a ++ b = a ++ c -> b = c.
Proof.
  induction a as [|ch a IH]; simpl; intros H; [exact H|].
  injection H as H. exact (IH H).
Qed.

Lemma format_02X_injective d1 d2 : Py.format_02X d1 = Py.format_02X d2 -> d1 = d2.
Proof.
  intros H. pose proof (format_02X_round_trip d1) as H1.
  rewrite H, format_02X_round_trip in H1. injection H1 as H1. symmetry. exact H1.
Qed.

Lemma string_app_inv_tail (a b c : string) :
  a ++ c = b ++ c -> a = b.
Proof.
  intros H.
  assert (Hlen : String.length a = String.length b).
  { apply (f_equal String.length) in H. rewrite !string_length_app in H. lia. }
  revert b H Hlen. induction a as [|ch a IH]; intros [|ch' b] H Hlen;
    simpl in Hlen; try discriminate; [reflexivity|].
  simpl in H. injection H as -> H. f_equal. apply IH; [exact H | lia].
Qed.

(** X1.  The digits of a line are the address, whatever integer the scan
    returned: read back as a hexadecimal number they give the address
    again, so two different addresses are never reported by the same line. *)
Theorem found_line_determines_address :
  (forall d, parse_int16 (Py.format_02X d) = Some d)
  /\ (forall d1 d2, found_line d1 = found_line d2 -> d1 = d2).
Proof.
  split; [exact format_02X_round_trip|].
  intros d1 d2 H. unfold found_line in H.
  apply string_app_inv_head in H. apply string_app_inv_tail in H.
  exact (format_02X_injective _ _ H).
Qed.

Lemma found_line_determines_address_witness :
  found_line 0x3C = found_line (0x30 + 0xC) /\ 0x3C = 0x30 + 0xC.
Proof.
  assert (H : found_line 0x3C = found_line (0x30 + 0xC)) by reflexivity.
  split; [exact H|].
  exact (proj2 found_line_determines_address 0x3C (0x30 + 0xC) H).
Defined.

(** X2.  The two digits are a minimum, not a limit: the text written for
    an address has at least two characters, and exactly two iff the address
    lies in -15..255; a larger address is written in full. *)
Theorem format_02X_width d :
  (2 <= String.length (Py.format_02X d))%nat
  /\ (String.length (Py.format_02X d) = 2%nat <-> -16 < d < 256).
Proof.
  unfold Py.format_02X. destruct (d <? 0) eqn:Hd.
  - apply Z.ltb_lt in Hd.
    pose proof (upper_hex_nonempty (- d) ltac:(lia)) as Hlen.
    destruct (upper_hex_length (- d) ltac:(lia)) as [H1 [H2 H3]].
    rewrite zero_pad_1 by exact Hlen. cbn [append String.length].
    split; [lia|]. split; intros H.
    + destruct (Z_lt_dec (- d) 16); [lia|].
      destruct (Z_lt_dec (- d) 256); [rewrite H2 in H by lia; lia|].
      specialize (H3 ltac:(lia)). lia.
    + rewrite H1 by lia. reflexivity.
  - apply Z.ltb_ge in Hd.
    pose proof (upper_hex_nonempty d Hd) as Hlen.
    destruct (upper_hex_length d Hd) as [H1 [H2 H3]].
    rewrite zero_pad_2 by exact Hlen.
    destruct (String.length (Py.upper_hex d) =? 1)%nat eqn:He.
    + apply Nat.eqb_eq in He. cbn [append String.length]. rewrite He.
      split; [lia|]. split; [intros _|reflexivity].
      destruct (Z_lt_dec d 16); [lia|].
      destruct (Z_lt_dec d 256); [rewrite H2 in He by lia; lia|].
      specialize (H3 ltac:(lia)). lia.
    + apply Nat.eqb_neq in He. split; [lia|]. split; intros H.
      * destruct (Z_lt_dec d 256); [lia|]. specialize (H3 ltac:(lia)). lia.
      * destruct (Z_lt_dec d 16); [rewrite H1 in He by lia; lia|].
        apply H2. lia.
Qed.

(* ===================================================================== *)
(** ** When the scan raises *)
(* ===================================================================== *)

Lemma run_body_raises w i2c n e fuel :
  scans w n = Raises e ->
  run w (2 + fuel) n (scan_i2c_body i2c)
  = MkRun [EvPrint "Scanning..."; EvScan i2c (Raises e)] (Uncaught e) (S n) fuel.
Proof.
  intros H. unfold scan_i2c_body. rewrite run_bind.
  change (2 + fuel)%nat with (1 + (1 + fuel))%nat.
  rewrite (completes_print w "Scanning..." n). unfold and_then at 1.
  cbn [outcome scans_done fuel_left trace]. rewrite run_bind.
  cbn [Nat.add]. simpl (run w (S fuel) n (scan i2c)). rewrite H.
  reflexivity.
Qed.

(** X3.  The script catches nothing: when the first [m] scans return and
    the next one raises, the process is ended by that exception; its events
    are the banner, [m] whole iterations, the line [Scanning...] and the
    failing scan, and neither [done] nor a sleep nor anything else follows,
    however long one waits. *)
Theorem scan_exception_ends_the_run w i2c devs m e fuel :
  scans_return w devs m ->
  scans w m = Raises e ->
  run w (scan_i2c_cost devs m + (2 + fuel)) 0 (scan_i2c i2c)
  = MkRun (scan_i2c_events i2c devs m
           ++ [EvPrint "Scanning..."; EvScan i2c (Raises e)])
          (Uncaught e) (S m) fuel.
Proof.
  intros Hret Hraise.
  rewrite (run_scan_i2c w i2c devs m _ Hret), run_forever_unfold.
  rewrite (run_body_raises w i2c m e fuel Hraise). reflexivity.
Qed.

Lemma scan_exception_ends_the_run_witness :
  let w := MkWorld (fun k => match k with
                             | O => Returns [0x3C]
                             | _ => Raises (Exn "OSError")
                             end) [] [] in
  scans_return w (fun _ => [0x3C]) 1
  /\ scans w 1 = Raises (Exn "OSError")
  /\ outcome (run w (scan_i2c_cost (fun _ => [0x3C]) 1 + (2 + 100)) 0
                  (scan_i2c the_i2c))
     = Uncaught (Exn "OSError").
Proof.
  intros w.
  assert (H : scans_return w (fun _ => [0x3C]) 1)
    by (intros k Hk; destruct k; [reflexivity | lia]).
  split; [exact H | split; [reflexivity|]].
  exact (f_equal outcome
           (scan_exception_ends_the_run w the_i2c (fun _ => [0x3C]) 1
              (Exn "OSError") 100 H eq_refl)).
Defined.

(* ===================================================================== *)
(** ** Every run is a run of the protocol *)
(* ===================================================================== *)

(** X4.  Whatever the scans do and however long the program has run, its
    events are in turn: two pins and one bus object are built, once and
    first; the banner is written once; then each round is the line
    [Scanning...], one scan of that bus object, the lines of exactly the
    addresses that scan returned, in its order (or the line
    [No I2C devices found]), the line [done], and a sleep of 5 seconds; and
    nothing comes after a scan that raised. *)
Theorem main_follows_the_protocol w fuel :
  exists ph,
    accepts (protocol the_i2c) Boot (trace (run w fuel 0 (module_main "__main__")))
    = Some ph.
Proof.
  destruct (follows_module_main w (fun _ _ => True) fuel 0%nat) as [ph [H _]].
  exists ph. exact H.
Qed.

(** X5.  The scanner never scans twice without sleeping in between, and
    never sleeps twice without a scan in between: at every moment of every
    run the number of scans made is the number of sleeps, or one more. *)
Theorem scans_and_sleeps_alternate w fuel :
  let tr := trace (run w fuel 0 (module_main "__main__")) in
  (count is_sleep tr <= count is_scan tr <= count is_sleep tr + 1)%nat.
Proof.
  intros tr. subst tr.
  destruct (follows_module_main w (fun _ _ => True) fuel 0%nat) as [ph [H _]].
  pose proof (protocol_balance _ _ _ _ H) as Hb.
  assert (owes_sleep ph <= 1)%nat by (destruct ph; simpl; lia).
  simpl owes_sleep in Hb. lia.
Qed.

Lemma import_does_not_scan_witness :
  String.eqb "i2cscanner" "__main__" = false
  /\ run (MkWorld (fun _ => Returns [0x3C]) [] []) (3 + 50) 0 (module_main "i2cscanner")
     = MkRun init_events (Returned tt) 0 50.
Proof.
  split; [reflexivity|].
  exact (import_does_not_scan (MkWorld (fun _ => Returns [0x3C]) [] []) 50
           "i2cscanner" eq_refl).
Defined.

(* ===================================================================== *)
(** ** The interval between two sweeps *)
(* ===================================================================== *)

(** C9.  [scan_i2c] has no parameter for the interval, and the interval is
    5 seconds in every iteration.  Whatever the scans do and however long
    the script runs, every [time.sleep] it calls is a sleep of exactly 5
    seconds, and at every moment the number of scans made is the number of
    sleeps or one more, so that between two consecutive scans there is
    exactly one sleep, of 5 seconds.  While the scans return, every
    iteration ends with [time.sleep(5)]: the events of the first [m]
    iterations are, after the banner, [m] times the line [Scanning...], the
    scan, its report, the line [done] and the sleep of 5 seconds. *)
Theorem sleep_interval_is_five w i2c :
  (forall fuel, Forall sleeps_five (trace (run w fuel 0 (scan_i2c i2c))))
  /\ (forall fuel,
        let tr := trace (run w fuel 0 (scan_i2c i2c)) in
        (count is_sleep tr <= count is_scan tr <= count is_sleep tr + 1)%nat)
  /\ (forall devs m,
        scans_return w devs m ->
        trace (run w (scan_i2c_cost devs m) 0 (scan_i2c i2c))
        = EvPrint banner
          :: flat_map (fun k =>
                         ([EvPrint "Scanning..."; EvScan i2c (Returns (devs k))]
                          ++ report_events (devs k)
                          ++ [EvPrint ("done" ++ Py.newline); EvSleep 5])%list)
                      (seq 0 m))
  /\ (forall devices,
        scans w 0 = Returns devices ->
        In (EvSleep 5)
           (trace (run w (scan_i2c_cost (fun _ => devices) 1) 0 (scan_i2c i2c)))).
Proof.
  split; [|split; [|split]].
  - intros fuel. apply scan_i2c_sleeps_five.
  - intros fuel tr. subst tr.
    destruct (follows_scan_i2c w i2c (fun _ _ => True) fuel 0%nat) as [ph [H _]].
    pose proof (protocol_balance _ _ _ _ H) as Hb.
    assert (owes_sleep ph <= 1)%nat by (destruct ph; simpl; lia).
    simpl owes_sleep in Hb. lia.
  - intros devs m H. rewrite scan_i2c_prefix by exact H. reflexivity.
  - intros devices H.
    rewrite scan_i2c_prefix.
    + simpl. unfold loop_events. simpl. rewrite app_nil_r.
      right. unfold iteration_events. rewrite !in_app_iff.
      right. right. simpl. auto.
    + intros k Hk. replace k with 0%nat by lia. exact H.
Qed.

Lemma sleep_interval_is_five_witness :
  let w := MkWorld (fun _ => Returns [0x3C; 0x68]) [] [] in
  scans_return w (fun _ => [0x3C; 0x68]) 3
  /\ scans w 0 = Returns [0x3C; 0x68]
  /\ count is_sleep (trace (run w (scan_i2c_cost (fun _ => [0x3C; 0x68]) 3) 0
                                (scan_i2c the_i2c))) = 3%nat
  /\ In (EvSleep 5)
        (trace (run w (scan_i2c_cost (fun _ => [0x3C; 0x68]) 1) 0 (scan_i2c the_i2c))).
Proof.
  intros w.
  assert (H : scans_return w (fun _ => [0x3C; 0x68]) 3)
    by (intros k _; reflexivity).
  split; [exact H | split; [reflexivity | split]].
  - rewrite (proj1 (proj2 (proj2 (sleep_interval_is_five w the_i2c)))
               (fun _ => [0x3C; 0x68]) 3%nat H).
    reflexivity.
  - exact (proj2 (proj2 (proj2 (sleep_interval_is_five w the_i2c)))
             [0x3C; 0x68] eq_refl).
Defined.
